(** * verify_reset_button.py: a shallow embedding and its properties

    The repository is one Python script, [verify_reset_button.py].  It
    drives a headless Chromium through Playwright: it starts the
    driver, launches a browser, opens a page, navigates to the
    [index.html] of the working directory, waits for [#main-menu],
    saves a screenshot of that element as [reset-button.png], prints a
    confirmation and closes the browser.

    The script is embedded as a computation in a state-and-exception
    monad over a [World]: the working directory, the environment, the
    file system, a logical clock, the driver and browser processes, the
    page, the two output streams and the log of library calls.  The
    calls into [os.path] follow CPython's [posixpath].  Playwright and
    Chromium are external collaborators: their calls are given a
    reference semantics here, and what can go wrong on the host (no
    browser installed, a read-only directory, ...) is an [Engine]
    parameter of every definition. *)

From Stdlib Require Import Ascii String Lia.
From stdpp Require Import base strings gmap list.

Local Open Scope string_scope.

(** ** [posixpath]: the part of [os.path] the script calls *)

Module posixpath.

Definition sep : ascii := "/"%char.

(** [s.startswith(pre)] *)
Fixpoint startswith (s pre : string) {struct pre} : bool :=
  match pre with
  | EmptyString => true
  | String a pre' =>
      match s with
      | EmptyString => false
      | String b s' => Ascii.eqb b a && startswith s' pre'
      end
  end.

(** [isabs(s)] *)
Definition isabs (s : string) : bool := startswith s "/".

(** [s.endswith('/')] *)
Fixpoint endswith_sep (s : string) : bool :=
  match s with
  | EmptyString => false
  | String c EmptyString => Ascii.eqb c sep
  | String _ s' => endswith_sep s'
  end.

(** [join(a, b)] for one component [b] *)
Definition join (a b : string) : string :=
  if isabs b then b
  else if String.eqb a "" || endswith_sep a then a +:+ b
  else a +:+ "/" +:+ b.

(** [path.split('/')] *)
Fixpoint split (s : string) : list string :=
  match s with
  | EmptyString => [EmptyString]
  | String c s' =>
      if Ascii.eqb c sep then EmptyString :: split s'
      else match split s' with
           | [] => [String c EmptyString]
           | h :: t => String c h :: t
           end
  end.

(** [initial_slashes] of [normpath]: POSIX keeps exactly two leading
    slashes; three or more are one *)
Definition initial_slashes (path : string) : nat :=
  if negb (startswith path "/") then 0
  else if startswith path "//" && negb (startswith path "///") then 2
  else 1.

Definition last_is_dotdot (comps : list string) : bool :=
  match last comps with
  | Some c => String.eqb c ".."
  | None => false
  end.

(** one turn of the loop [for comp in comps] of [normpath] *)
Definition norm_step (init : nat) (new_comps : list string) (comp : string)
  : list string :=
  if String.eqb comp "" || String.eqb comp "." then new_comps
  else if negb (String.eqb comp "..")
          || (Nat.eqb init 0 && bool_decide (new_comps = []))
          || last_is_dotdot new_comps
       then new_comps ++ [comp]
       else removelast new_comps.

Fixpoint slashes (n : nat) : string :=
  match n with
  | O => ""
  | S n' => String sep (slashes n')
  end.

Definition normpath (path : string) : string :=
  if String.eqb path "" then "."
  else
    let init := initial_slashes path in
    let comps := fold_left (norm_step init) (split path) [] in
    let path' := slashes init +:+ String.concat "/" comps in
    if String.eqb path' "" then "." else path'.

(** [abspath(path)], with [os.getcwd()] passed as [cwd] *)
Definition abspath (cwd path : string) : string :=
  normpath (if isabs path then path else join cwd path).

(** a file name: not empty, no separator, neither [.] nor [..] *)
Fixpoint no_sep (s : string) : bool :=
  match s with
  | EmptyString => true
  | String c s' => negb (Ascii.eqb c sep) && no_sep s'
  end.

Definition is_name (a : string) : bool :=
  no_sep a && negb (String.eqb a "") && negb (String.eqb a ".")
  && negb (String.eqb a "..").

End posixpath.

(** ** File URLs, as the browser reads them

    The script builds the URL by string concatenation; the browser,
    which is not part of the repository, takes it apart again.
    Following RFC 3986, the path of a URL ends
    at the first [?] or [#], and [%XX] stands for the byte [XX].  The
    authority between [file://] and the path is empty for an absolute
    path, and is not modelled.  Characters that the browser's parser
    rewrites besides these (a backslash, a tab, a newline) are not
    modelled either: the general theorems below are stated for paths
    made of [path_char]s, which every stage leaves alone. *)

Module url.

Fixpoint strip_prefix (pre s : string) : option string :=
  match pre, s with
  | EmptyString, _ => Some s
  | String a pre', String b s' =>
      if Ascii.eqb a b then strip_prefix pre' s' else None
  | String _ _, EmptyString => None
  end.

Definition is_delim (c : ascii) : bool :=
  Ascii.eqb c "#" || Ascii.eqb c "?".

(** the path component: everything before the query or the fragment *)
Fixpoint before_delim (s : string) : string :=
  match s with
  | EmptyString => EmptyString
  | String c s' => if is_delim c then EmptyString else String c (before_delim s')
  end.

Definition hex_val (c : ascii) : option nat :=
  let n := nat_of_ascii c in
  if ((48 <=? n) && (n <=? 57))%nat then Some (n - 48)
  else if ((65 <=? n) && (n <=? 70))%nat then Some (n - 55)
  else if ((97 <=? n) && (n <=? 102))%nat then Some (n - 87)
  else None.

Fixpoint percent_decode (s : string) : string :=
  match s with
  | EmptyString => EmptyString
  | String c s' =>
      if Ascii.eqb c "%" then
        match s' with
        | String h (String l rest) =>
            match hex_val h, hex_val l with
            | Some a, Some b =>
                String (ascii_of_nat (16 * a + b)) (percent_decode rest)
            | _, _ => String c (percent_decode s')
            end
        | _ => String c (percent_decode s')
        end
      else String c (percent_decode s')
  end.

(** the file a [file://] URL designates *)
Definition file_of_url (u : string) : option string :=
  match strip_prefix "file://" u with
  | Some rest => Some (percent_decode (before_delim rest))
  | None => None
  end.

(** RFC 3986 unreserved characters, and the path separator *)
Definition path_char (c : ascii) : bool :=
  let n := nat_of_ascii c in
  ((48 <=? n) && (n <=? 57))%nat || ((65 <=? n) && (n <=? 90))%nat
  || ((97 <=? n) && (n <=? 122))%nat
  || Ascii.eqb c "-" || Ascii.eqb c "." || Ascii.eqb c "_"
  || Ascii.eqb c "~" || Ascii.eqb c "/".

Fixpoint plain (s : string) : bool :=
  match s with
  | EmptyString => true
  | String c s' => path_char c && plain s'
  end.

End url.

(** ** Data *)

(** An element of a page, as far as the script can tell elements
    apart: its [id], when it becomes visible (milliseconds after the
    page has loaded; [None] if never), and its rendered box. *)
Record Element := {
  el_id : string;
  el_visible_after : option nat;
  el_width : nat;
  el_height : nat
}.

Definition Document := list Element.

Record Image := {
  img_width : nat;
  img_height : nat;
  img_data : string
}.

Inductive Content :=
| Html (d : Document)
| Png (i : Image).

(** what a page shows after loading a file: an image document has no
    element with an id *)
Definition elements (c : Content) : Document :=
  match c with
  | Html d => d
  | Png _ => []
  end.

(** a valid HTML document uses an id once *)
Definition valid (d : Document) : Prop := NoDup (map el_id d).

Inductive Error :=
| PlaywrightError (msg : string)
| TimeoutError (msg : string)
| OSError (msg : string).

(** the calls the script makes, with their arguments *)
Inductive Call :=
| CStart
| CLaunch
| CNewPage
| CGoto (u : string)
| CWaitForSelector (selector : string)
| CScreenshot (selector path : string)
| CPrint (msg : string)
| CClose
| CStop.

(** a call and how it ended: [None] when it returned *)
Definition Event : Type := Call * option Error.

Record World := {
  cwd : string;
  environ : list (string * string);
  argv : list string;
  fs : gmap string Content;
  clock : nat;
  driver_up : bool;
  browser_up : bool;
  page : option Document;
  stdout : list string;
  stderr : list Error;
  log : list Event
}.

(** One host as a run meets it: for each library call the failure, if
    any, with which it ends for a reason outside the world above (no
    browser installed, a directory that cannot be written, whatever
    the library makes of its own configuration), the timeout
    Playwright applies by default, and the pixels the renderer
    produces at a given time.  Playwright is not part of the
    repository; every definition of the script takes its host as a
    parameter. *)
Record Engine := {
  start_fault : option Error;
  launch_fault : option Error;
  new_page_fault : option Error;
  goto_fault : option Error;
  write_fault : option Error;
  close_fault : option Error;
  default_timeout : nat;
  raster : nat -> Element -> string
}.

(** ** Updating the world *)

Definition set_fs (v : gmap string Content) (w : World) : World :=
  {| cwd := cwd w; environ := environ w; argv := argv w; fs := v;
     clock := clock w; driver_up := driver_up w; browser_up := browser_up w;
     page := page w; stdout := stdout w; stderr := stderr w; log := log w |}.

Definition set_clock (v : nat) (w : World) : World :=
  {| cwd := cwd w; environ := environ w; argv := argv w; fs := fs w;
     clock := v; driver_up := driver_up w; browser_up := browser_up w;
     page := page w; stdout := stdout w; stderr := stderr w; log := log w |}.

Definition set_driver_up (v : bool) (w : World) : World :=
  {| cwd := cwd w; environ := environ w; argv := argv w; fs := fs w;
     clock := clock w; driver_up := v; browser_up := browser_up w;
     page := page w; stdout := stdout w; stderr := stderr w; log := log w |}.

Definition set_browser_up (v : bool) (w : World) : World :=
  {| cwd := cwd w; environ := environ w; argv := argv w; fs := fs w;
     clock := clock w; driver_up := driver_up w; browser_up := v;
     page := page w; stdout := stdout w; stderr := stderr w; log := log w |}.

Definition set_page (v : option Document) (w : World) : World :=
  {| cwd := cwd w; environ := environ w; argv := argv w; fs := fs w;
     clock := clock w; driver_up := driver_up w; browser_up := browser_up w;
     page := v; stdout := stdout w; stderr := stderr w; log := log w |}.

Definition set_stdout (v : list string) (w : World) : World :=
  {| cwd := cwd w; environ := environ w; argv := argv w; fs := fs w;
     clock := clock w; driver_up := driver_up w; browser_up := browser_up w;
     page := page w; stdout := v; stderr := stderr w; log := log w |}.

Definition set_stderr (v : list Error) (w : World) : World :=
  {| cwd := cwd w; environ := environ w; argv := argv w; fs := fs w;
     clock := clock w; driver_up := driver_up w; browser_up := browser_up w;
     page := page w; stdout := stdout w; stderr := v; log := log w |}.

Definition set_log (v : list Event) (w : World) : World :=
  {| cwd := cwd w; environ := environ w; argv := argv w; fs := fs w;
     clock := clock w; driver_up := driver_up w; browser_up := browser_up w;
     page := page w; stdout := stdout w; stderr := stderr w; log := v |}.

(** ** The monad: a world is threaded through, an exception ends the
    computation it is raised in *)

Inductive Res (A : Type) :=
| Ok (a : A)
| Raise (e : Error).

Arguments Ok {A} a.
Arguments Raise {A} e.

Definition M (A : Type) : Type := World -> Res A * World.

Definition ret {A} (a : A) : M A := fun w => (Ok a, w).

Definition raise {A} (e : Error) : M A := fun w => (Raise e, w).

Definition bind {A B} (m : M A) (k : A -> M B) : M B :=
  fun w =>
    match m w with
    | (Ok a, w') => k a w'
    | (Raise e, w') => (Raise e, w')
    end.

Declare Scope script_scope.
Delimit Scope script_scope with script.
Notation "x <- m ;; k" := (bind m (fun x => k))
  (at level 100, m at next level, k at level 200, right associativity)
  : script_scope.
Notation "m ;; k" := (bind m (fun _ => k))
  (at level 100, k at level 200, right associativity) : script_scope.
Local Open Scope script_scope.

Definition modify (f : World -> World) : M unit := fun w => (Ok tt, f w).

Definition outcome {A} (r : Res A) : option Error :=
  match r with
  | Ok _ => None
  | Raise e => Some e
  end.

(** a call into a library, entered in the log when it ends *)
Definition invoke {A} (c : Call) (m : M A) : M A :=
  fun w =>
    let (r, w') := m w in
    (r, set_log (log w' ++ [(c, outcome r)]) w').

(** a call that the host may fail *)
Definition guarded {A} (fault : option Error) (m : M A) : M A :=
  match fault with
  | Some e => raise e
  | None => m
  end.

(** ** The collaborators: Playwright, Chromium, the operating system *)

(** the three handles of the script *)
Inductive Playwright := playwright_handle.
Inductive Browser := browser_handle.
Inductive Page := page_handle.
Inductive Locator := locator (pg : Page) (selector : string).

(** [os.path.abspath(path)]: reads the working directory *)
Definition os_path_abspath (path : string) : M string :=
  fun w => (Ok (posixpath.abspath (cwd w) path), w).

(** Modelled from the spec: Playwright's
    [async_playwright().__aenter__()], "acquire a scoped
    browser-automation session"; the driver process starts, or the
    host fails it *)
Definition start (E : Engine) : M Playwright :=
  invoke CStart
    (guarded (start_fault E)
       (modify (set_driver_up true) ;; ret playwright_handle)).

(** Modelled from the spec: Playwright's
    [async_playwright().__aexit__(...)], "release the scoped session
    (browser process terminates)"; the driver stops, and takes with it
    the browser it launched *)
Definition stop : M unit :=
  invoke CStop
    (modify (fun w => set_page None (set_browser_up false (set_driver_up false w)))).

(** Modelled from the spec: Playwright's [p.chromium.launch()],
    "launch one browser instance"; "browser engine unavailable/fails
    to launch -> startup failure" *)
Definition launch (E : Engine) (p : Playwright) : M Browser :=
  invoke CLaunch
    (guarded (launch_fault E)
       (modify (set_browser_up true) ;; ret browser_handle)).

(** Modelled from the spec: Playwright's [browser.new_page()], "open
    one page/tab"; the page is blank *)
Definition new_page (E : Engine) (b : Browser) : M Page :=
  invoke CNewPage
    (guarded (new_page_fault E)
       (modify (set_page (Some [])) ;; ret page_handle)).

(** Modelled from the spec: Playwright's [page.goto(url)], "navigate
    the page to that URL and block until the navigation completes";
    "missing input file -> navigation/resolution failure".  The page
    shows the file the URL designates. *)
Definition goto (E : Engine) (pg : Page) (u : string) : M unit :=
  invoke (CGoto u)
    (guarded (goto_fault E)
       (fun w =>
          match url.file_of_url u with
          | None => (Raise (PlaywrightError ("Protocol error: Cannot navigate to invalid URL at " +:+ u)), w)
          | Some f =>
              match fs w !! f with
              | None => (Raise (PlaywrightError ("net::ERR_FILE_NOT_FOUND at " +:+ u)), w)
              | Some c => (Ok tt, set_page (Some (elements c)) w)
              end
          end)).

(** a selector [#name] matches the elements whose id is [name] *)
Definition matches (selector : string) (el : Element) : bool :=
  String.eqb selector (String "#" (el_id el)).

(** the element is visible at some time up to the timeout *)
Definition appears_within (timeout : nat) (el : Element) : option nat :=
  match el_visible_after el with
  | Some t => if (t <=? timeout)%nat then Some t else None
  | None => None
  end.

Definition shown (w : World) : Document :=
  match page w with
  | Some d => d
  | None => []
  end.

Definition timeout_error (what : string) : Error :=
  TimeoutError ("Timeout exceeded while waiting for " +:+ what).

(** when the first match of the selector becomes visible in a
    document, if within the timeout *)
Definition visible_at (timeout : nat) (selector : string) (d : Document)
  : option nat :=
  match List.find (matches selector) d with
  | Some el => appears_within timeout el
  | None => None
  end.

(** Modelled from the spec: Playwright's
    [page.wait_for_selector(selector)], "block until an element
    matching a fixed selector is present and visible, subject to the
    library's default timeout policy; if the element never appears
    within that timeout, the operation fails".  It returns when the
    first match is visible, and raises once the timeout has passed. *)
Definition wait_for_selector (E : Engine) (pg : Page) (selector : string) : M unit :=
  invoke (CWaitForSelector selector)
    (fun w =>
       match visible_at (default_timeout E) selector (shown w) with
       | Some t => (Ok tt, set_clock (clock w + t) w)
       | None => (Raise (timeout_error selector),
                  set_clock (clock w + default_timeout E) w)
       end).

(** the picture of an element: its box, filled by the renderer *)
Definition capture (E : Engine) (w : World) (el : Element) : Image :=
  {| img_width := el_width el; img_height := el_height el;
     img_data := raster E (clock w) el |}.

(** Modelled from the spec: Playwright's
    [locator.screenshot(path=path)], "capture a bitmap image cropped
    to that element's rendered bounding box; write the bitmap to a
    fixed relative output path, overwriting any existing file at that
    path"; "filesystem write failure -> I/O failure".  A locator is
    strict: it refuses a selector with several matches.  It waits for
    its element like [wait_for_selector].  The file is created or
    truncated, relative to the working directory. *)
Definition screenshot (E : Engine) (l : Locator) (path : string) : M unit :=
  let 'locator _ selector := l in
  invoke (CScreenshot selector path)
    (fun w =>
       match List.filter (matches selector) (shown w) with
       | [el] =>
           match appears_within (default_timeout E) el with
           | Some _ =>
               match write_fault E with
               | Some e => (Raise e, w)
               | None =>
                   (Ok tt,
                    set_fs (<[posixpath.abspath (cwd w) path := Png (capture E w el)]> (fs w)) w)
               end
           | None => (Raise (timeout_error selector),
                      set_clock (clock w + default_timeout E) w)
           end
       | [] => (Raise (timeout_error selector),
                set_clock (clock w + default_timeout E) w)
       | _ :: _ :: _ =>
           (Raise (PlaywrightError ("strict mode violation: " +:+ selector)), w)
       end).

(** [print(msg)] *)
Definition print (msg : string) : M unit :=
  invoke (CPrint msg) (modify (fun w => set_stdout (stdout w ++ [msg]) w)).

(** Modelled from the spec: Playwright's [browser.close()], "shut down
    the browser process" *)
Definition close (E : Engine) (b : Browser) : M unit :=
  invoke CClose
    (guarded (close_fault E)
       (modify (fun w => set_page None (set_browser_up false w)))).

(** [async with async_playwright() as p: body]: if the entry raises,
    nothing else runs; otherwise the exit runs however the body ends,
    and the body's result, value or exception, is the result (the exit
    does not swallow an exception of the body) *)
Definition async_with_playwright {A} (E : Engine) (body : Playwright -> M A) : M A :=
  fun w =>
    match start E w with
    | (Raise e, w1) => (Raise e, w1)
    | (Ok p, w1) =>
        let (r, w2) := body p w1 in
        let (_, w3) := stop w2 in
        (r, w3)
    end.

(** ** The script *)

Definition main (E : Engine) : M unit :=
  async_with_playwright E (fun p =>
    browser <- launch E p ;;
    page <- new_page E browser ;;
    html_file_path <- os_path_abspath "index.html" ;;
    goto E page ("file://" +:+ html_file_path) ;;
    wait_for_selector E page "#main-menu" ;;
    let screenshot_path := "reset-button.png" in
    screenshot E (locator page "#main-menu") screenshot_path ;;
    print ("Screenshot saved to " +:+ screenshot_path) ;;
    close E browser).

(** a new process: nothing launched, nothing written, nothing logged *)
Definition spawn (w : World) : World :=
  {| cwd := cwd w; environ := environ w; argv := argv w; fs := fs w;
     clock := clock w; driver_up := false; browser_up := false;
     page := None; stdout := []; stderr := []; log := [] |}.

(** the interpreter's exit status: 1 after an uncaught exception *)
Definition exit_status {A} (r : Res A) : nat :=
  match r with
  | Ok _ => 0
  | Raise _ => 1
  end.

(** the traceback of an uncaught exception goes to standard error *)
Definition report {A} (r : Res A) (w : World) : World :=
  match r with
  | Ok _ => w
  | Raise e => set_stderr (stderr w ++ [e]) w
  end.

(** [python verify_reset_button.py]: the block under
    [if __name__ == '__main__'], that is [asyncio.run(main())] *)
Definition script (E : Engine) (w : World) : nat * World :=
  let (r, w') := main E (spawn w) in
  (exit_status r, report r w').

Definition status (E : Engine) (w : World) : nat := fst (script E w).
Definition final (E : Engine) (w : World) : World := snd (script E w).

(** what [main] returns or raises *)
Definition result (E : Engine) (w : World) : Res unit := fst (main E (spawn w)).

(** the calls of a run, without their outcomes *)
Definition calls (w : World) : list Call := map fst (log w).

(** ** Names for what the specification talks about *)

(** the [html_file_path] of the script *)
Definition index_path (w : World) : string :=
  posixpath.abspath (cwd w) "index.html".

(** the argument of [page.goto] *)
Definition index_url (w : World) : string := "file://" +:+ index_path w.

(** where a write to the relative path [reset-button.png] lands *)
Definition output_path (w : World) : string :=
  posixpath.abspath (cwd w) "reset-button.png".

(** the host fails none of the calls *)
Definition no_faults (E : Engine) : Prop :=
  start_fault E = None /\ launch_fault E = None /\ new_page_fault E = None
  /\ goto_fault E = None /\ write_fault E = None /\ close_fault E = None.

(** the calls of a complete run, in the order of the script *)
Definition sequence (w : World) : list Call :=
  [ CStart; CLaunch; CNewPage; CGoto (index_url w);
    CWaitForSelector "#main-menu";
    CScreenshot "#main-menu" "reset-button.png";
    CPrint "Screenshot saved to reset-button.png"; CClose ].

Definition returned (c : Call) : Event := (c, None).

(** two worlds that differ at most in the environment variables and in
    the command line *)
Definition same_but_env (w1 w2 : World) : Prop :=
  cwd w1 = cwd w2 /\ fs w1 = fs w2 /\ clock w1 = clock w2
  /\ driver_up w1 = driver_up w2 /\ browser_up w1 = browser_up w2
  /\ page w1 = page w2 /\ stdout w1 = stdout w2 /\ stderr w1 = stderr w2
  /\ log w1 = log w2.

(** ** The paths through the script

    The script has no branch of its own; where a run ends is decided
    by the first call that raises.  [Path E w r w'] lists the ten ways
    a run started in [w] can go, each with what [main] returns or
    raises and the world it leaves. *)

(** the file the browser opens for the URL of the script *)
Definition target (w : World) : string :=
  url.percent_decode (url.before_delim (index_path w)).

(** the world a run leaves: the processes are gone, the rest as given *)
Definition left_world (w : World) (files : gmap string Content) (time : nat)
    (out : list string) (lg : list Event) : World :=
  {| cwd := cwd w; environ := environ w; argv := argv w; fs := files;
     clock := time; driver_up := false; browser_up := false; page := None;
     stdout := out; stderr := []; log := lg |}.

(** the world in which the screenshot is taken *)
Definition at_screenshot (w : World) (c : Content) (t : nat) : World :=
  {| cwd := cwd w; environ := environ w; argv := argv w; fs := fs w;
     clock := clock w + t; driver_up := true; browser_up := true;
     page := Some (elements c); stdout := []; stderr := [];
     log := map returned (take 5 (sequence w)) |}.

Definition written (E : Engine) (w : World) (c : Content) (t : nat)
    (el : Element) : gmap string Content :=
  <[output_path w := Png (capture E (at_screenshot w c t) el)]> (fs w).

Inductive Path (E : Engine) (w : World) : Res unit -> World -> Prop :=
| start_fails e :
    start_fault E = Some e ->
    Path E w (Raise e)
      (left_world w (fs w) (clock w) [] [(CStart, Some e)])
| launch_fails e :
    start_fault E = None -> launch_fault E = Some e ->
    Path E w (Raise e)
      (left_world w (fs w) (clock w) []
         (map returned (take 1 (sequence w))
          ++ [(CLaunch, Some e); (CStop, None)]))
| new_page_fails e :
    start_fault E = None -> launch_fault E = None ->
    new_page_fault E = Some e ->
    Path E w (Raise e)
      (left_world w (fs w) (clock w) []
         (map returned (take 2 (sequence w))
          ++ [(CNewPage, Some e); (CStop, None)]))
| goto_fails e :
    start_fault E = None -> launch_fault E = None ->
    new_page_fault E = None -> goto_fault E = Some e ->
    Path E w (Raise e)
      (left_world w (fs w) (clock w) []
         (map returned (take 3 (sequence w))
          ++ [(CGoto (index_url w), Some e); (CStop, None)]))
| file_not_found :
    start_fault E = None -> launch_fault E = None ->
    new_page_fault E = None -> goto_fault E = None ->
    fs w !! target w = None ->
    let e := PlaywrightError ("net::ERR_FILE_NOT_FOUND at " +:+ index_url w) in
    Path E w (Raise e)
      (left_world w (fs w) (clock w) []
         (map returned (take 3 (sequence w))
          ++ [(CGoto (index_url w), Some e); (CStop, None)]))
| wait_times_out c :
    start_fault E = None -> launch_fault E = None ->
    new_page_fault E = None -> goto_fault E = None ->
    fs w !! target w = Some c ->
    visible_at (default_timeout E) "#main-menu" (elements c) = None ->
    let e := timeout_error "#main-menu" in
    Path E w (Raise e)
      (left_world w (fs w) (clock w + default_timeout E) []
         (map returned (take 4 (sequence w))
          ++ [(CWaitForSelector "#main-menu", Some e); (CStop, None)]))
| locator_not_strict c t el el' rest :
    start_fault E = None -> launch_fault E = None ->
    new_page_fault E = None -> goto_fault E = None ->
    fs w !! target w = Some c ->
    visible_at (default_timeout E) "#main-menu" (elements c) = Some t ->
    List.filter (matches "#main-menu") (elements c) = el :: el' :: rest ->
    let e := PlaywrightError ("strict mode violation: " +:+ "#main-menu") in
    Path E w (Raise e)
      (left_world w (fs w) (clock w + t) []
         (map returned (take 5 (sequence w))
          ++ [(CScreenshot "#main-menu" "reset-button.png", Some e);
              (CStop, None)]))
| write_fails c t el e :
    start_fault E = None -> launch_fault E = None ->
    new_page_fault E = None -> goto_fault E = None ->
    fs w !! target w = Some c ->
    visible_at (default_timeout E) "#main-menu" (elements c) = Some t ->
    List.filter (matches "#main-menu") (elements c) = [el] ->
    write_fault E = Some e ->
    Path E w (Raise e)
      (left_world w (fs w) (clock w + t) []
         (map returned (take 5 (sequence w))
          ++ [(CScreenshot "#main-menu" "reset-button.png", Some e);
              (CStop, None)]))
| close_fails c t el e :
    start_fault E = None -> launch_fault E = None ->
    new_page_fault E = None -> goto_fault E = None ->
    fs w !! target w = Some c ->
    visible_at (default_timeout E) "#main-menu" (elements c) = Some t ->
    List.filter (matches "#main-menu") (elements c) = [el] ->
    write_fault E = None -> close_fault E = Some e ->
    Path E w (Raise e)
      (left_world w (written E w c t el) (clock w + t)
         ["Screenshot saved to reset-button.png"]
         (map returned (take 7 (sequence w))
          ++ [(CClose, Some e); (CStop, None)]))
| completes c t el :
    start_fault E = None -> launch_fault E = None ->
    new_page_fault E = None -> goto_fault E = None ->
    fs w !! target w = Some c ->
    visible_at (default_timeout E) "#main-menu" (elements c) = Some t ->
    List.filter (matches "#main-menu") (elements c) = [el] ->
    write_fault E = None -> close_fault E = None ->
    Path E w (Ok tt)
      (left_world w (written E w c t el) (clock w + t)
         ["Screenshot saved to reset-button.png"]
         (map returned (sequence w) ++ [(CStop, None)])).

(** ** Concrete hosts and worlds, for the examples *)

Definition sound_engine : Engine :=
  {| start_fault := None; launch_fault := None; new_page_fault := None;
     goto_fault := None; write_fault := None; close_fault := None;
     default_timeout := 30 * 1000; raster := fun _ _ => "pixels" |}.

(** the same host, in a directory that cannot be written *)
Definition readonly_engine : Engine :=
  {| start_fault := None; launch_fault := None; new_page_fault := None;
     goto_fault := None;
     write_fault := Some (OSError "[Errno 13] Permission denied: 'reset-button.png'");
     close_fault := None;
     default_timeout := 30 * 1000; raster := fun _ _ => "pixels" |}.

Definition main_menu : Element :=
  {| el_id := "main-menu"; el_visible_after := Some 120;
     el_width := 320; el_height := 96 |}.

Definition hidden_menu : Element :=
  {| el_id := "main-menu"; el_visible_after := None;
     el_width := 320; el_height := 96 |}.

Definition boot (dir : string) (files : gmap string Content) : World :=
  {| cwd := dir; environ := [("HOME", "/home/dev")];
     argv := ["verify_reset_button.py"]; fs := files; clock := 0;
     driver_up := false; browser_up := false; page := None;
     stdout := []; stderr := []; log := [] |}.

(** the root of the repository *)
Definition repo_world : World :=
  boot "/home/dev/appcoffee11"
    {[ "/home/dev/appcoffee11/index.html" := Html [main_menu] ]}.

(** the same with an older screenshot in place *)
Definition repo_world_again : World :=
  boot "/home/dev/appcoffee11"
    {[ "/home/dev/appcoffee11/index.html" := Html [main_menu];
       "/home/dev/appcoffee11/reset-button.png" :=
         Png {| img_width := 1; img_height := 1; img_data := "old" |} ]}.

(** a directory without [index.html] *)
Definition empty_world : World := boot "/home/dev/empty" ∅.

(** a page whose menu never shows *)
Definition hidden_world : World :=
  boot "/home/dev/appcoffee11"
    {[ "/home/dev/appcoffee11/index.html" := Html [hidden_menu] ]}.

(** a directory [menu.html#v2] without [index.html], next to a file
    [menu.html] *)
Definition fragment_world : World :=
  boot "/srv/menu.html#v2" {[ "/srv/menu.html" := Html [main_menu] ]}.

(** the repository, started with other variables and arguments *)
Definition repo_world_env : World :=
  {| cwd := cwd repo_world;
     environ := [("HOME", "/root"); ("PLAYWRIGHT_SKIP", "1")];
     argv := ["verify_reset_button.py"; "--out"; "other.png"];
     fs := fs repo_world; clock := clock repo_world;
     driver_up := false; browser_up := false; page := None;
     stdout := []; stderr := []; log := [] |}.

(** ** Further worlds and hosts *)

(** a host whose browser no longer answers when it is closed *)
Definition closing_engine : Engine :=
  {| start_fault := None; launch_fault := None; new_page_fault := None;
     goto_fault := None; write_fault := None;
     close_fault :=
       Some (PlaywrightError "Target page, context or browser has been closed");
     default_timeout := 30 * 1000; raster := fun _ _ => "pixels" |}.

(** a host without a browser *)
Definition bare_engine : Engine :=
  {| start_fault := None;
     launch_fault := Some (PlaywrightError "Executable doesn't exist");
     new_page_fault := None; goto_fault := None; write_fault := None;
     close_fault := None;
     default_timeout := 30 * 1000; raster := fun _ _ => "pixels" |}.

(** a working directory as [os.getcwd()] returns it: the names from
    the root down, [/] for none *)
Definition rooted (comps : list string) : string :=
  "/" +:+ String.concat "/" comps.

(** the world with something else, or nothing, in the place where the
    script writes *)
Definition with_output (x : option Content) (w : World) : World :=
  set_fs (partial_alter (fun _ => x) (output_path w) (fs w)) w.

(** * Properties *)

Arguments posixpath.abspath : simpl never.
Arguments url.file_of_url : simpl never.
Arguments String.append : simpl never.

(** ** URLs of plain paths *)

Section PlainPaths.

Lemma path_char_not_special (c : ascii) :
  url.path_char c = true ->
  url.is_delim c = false /\ Ascii.eqb c "%" = false.
Proof.
  intros Hc. split.
  - destruct (url.is_delim c) eqn:Hd; [|reflexivity].
    apply orb_true_iff in Hd as [Hd|Hd]; apply Ascii.eqb_eq in Hd; subst c;
      vm_compute in Hc; discriminate.
  - destruct (Ascii.eqb c "%") eqn:Hp; [|reflexivity].
    apply Ascii.eqb_eq in Hp; subst c. vm_compute in Hc. discriminate.
Qed.

Lemma before_delim_plain (p : string) :
  url.plain p = true -> url.before_delim p = p.
Proof.
  induction p as [|c p IH]; simpl; [reflexivity|].
  intros [Hc Hp]%andb_true_iff.
  destruct (path_char_not_special c Hc) as [-> _].
  by rewrite IH.
Qed.

Lemma percent_decode_plain (p : string) :
  url.plain p = true -> url.percent_decode p = p.
Proof.
  induction p as [|c p IH]; simpl; [reflexivity|].
  intros [Hc Hp]%andb_true_iff.
  destruct (path_char_not_special c Hc) as [_ ->].
  by rewrite IH.
Qed.

(** the URL the script builds always parses as a [file://] URL *)
Lemma file_of_url_file (p : string) :
  url.file_of_url ("file://" +:+ p)
  = Some (url.percent_decode (url.before_delim p)).
Proof. reflexivity. Qed.

(** and for a plain path the browser opens that very path *)
Lemma file_of_url_plain (p : string) :
  url.plain p = true -> url.file_of_url ("file://" +:+ p) = Some p.
Proof.
  intros Hp. rewrite file_of_url_file, before_delim_plain by done.
  by rewrite percent_decode_plain.
Qed.

End PlainPaths.

(** ** Selectors in valid documents *)

Section Selectors.

Lemma matches_id (selector : string) (a b : Element) :
  matches selector a = true -> matches selector b = true -> el_id a = el_id b.
Proof.
  unfold matches. intros Ha%String.eqb_eq Hb%String.eqb_eq. congruence.
Qed.

Lemma no_second_match (selector : string) (a : Element) (d : Document) :
  matches selector a = true -> el_id a ∉ map el_id d ->
  List.filter (matches selector) d = [].
Proof.
  intros Ha Hnot. induction d as [|b d IH]; simpl; [reflexivity|].
  destruct (matches selector b) eqn:Hb.
  - exfalso. apply Hnot. rewrite (matches_id _ _ _ Ha Hb). simpl. left.
  - apply IH. intros Hin. apply Hnot. simpl. by right.
Qed.

(** in a valid document the first match of a selector is the only one *)
Lemma valid_single_match (selector : string) (d : Document) (el : Element) :
  valid d -> List.find (matches selector) d = Some el ->
  List.filter (matches selector) d = [el].
Proof.
  unfold valid. induction d as [|a d IH]; simpl; [discriminate|].
  intros Hnd Hfind. apply NoDup_cons in Hnd as [Hnot Hnd].
  destruct (matches selector a) eqn:Ha.
  - injection Hfind as <-. f_equal. by eapply no_second_match.
  - by apply IH.
Qed.

End Selectors.

(** ** Paths of file names

    [abspath] of a file name is the name behind a prefix that depends
    on the working directory alone: both files of the script are in
    one directory, and the file the browser opens for the URL is not
    the file the script writes. *)

Section PosixPaths.

Import posixpath.

Lemma append_cons (c : ascii) (a b : string) :
  String c a +:+ b = String c (a +:+ b).
Proof. reflexivity. Qed.

Lemma append_empty (b : string) : "" +:+ b = b.
Proof. reflexivity. Qed.

Lemma append_assoc (a b c : string) : (a +:+ b) +:+ c = a +:+ (b +:+ c).
Proof.
  induction a as [|x a IH]; [reflexivity|].
  by rewrite !append_cons, IH.
Qed.

Lemma length_append (a b : string) :
  String.length (a +:+ b) = String.length a + String.length b.
Proof.
  induction a as [|x a IH]; [reflexivity|].
  rewrite append_cons. simpl. by rewrite IH.
Qed.

Lemma split_name (a : string) : no_sep a = true -> split a = [a].
Proof.
  induction a as [|c a IH]; simpl; [reflexivity|].
  intros [Hc Ha]%andb_true_iff. apply negb_true_iff in Hc. rewrite Hc.
  by rewrite (IH Ha).
Qed.

(** the components of a path that ends in a separator, followed by a
    name *)
Lemma split_dir (J : string) :
  endswith_sep J = true ->
  exists h t, forall a, no_sep a = true -> split (J +:+ a) = (h :: t ++ [a])%list.
Proof.
  induction J as [|c J IH]; [discriminate|].
  destruct J as [|c' J'].
  - simpl. intros Hc. exists "", []. intros a Ha.
    rewrite Hc, append_empty. by rewrite split_name.
  - intros Hend. destruct (IH Hend) as (h & t & Hsplit).
    destruct (Ascii.eqb c sep) eqn:Hc.
    + exists "", (h :: t). intros a Ha.
      rewrite append_cons. cbn [split]. rewrite Hc. by rewrite Hsplit.
    + exists (String c h), t. intros a Ha.
      rewrite append_cons. cbn [split]. rewrite Hc. by rewrite Hsplit.
Qed.

(** a name is kept by [normpath] *)
Lemma norm_step_name (init : nat) (acc : list string) (a : string) :
  is_name a = true -> norm_step init acc a = (acc ++ [a])%list.
Proof.
  unfold is_name, norm_step.
  intros [[[_ H1]%andb_true_iff H2]%andb_true_iff H3]%andb_true_iff.
  apply negb_true_iff in H1, H2. rewrite H1, H2, H3. reflexivity.
Qed.

Lemma concat_snoc (acc : list string) :
  exists Q, forall b : string, String.concat "/" (acc ++ [b])%list = Q +:+ b.
Proof.
  induction acc as [|x acc IH].
  - exists "". reflexivity.
  - destruct IH as [Q HQ]. exists (x +:+ "/" +:+ Q). intros b.
    simpl. destruct (acc ++ [b])%list as [|y l] eqn:Hl.
    { by destruct acc. }
    rewrite <- Hl, HQ. by rewrite !append_assoc.
Qed.
Lemma name_head (a : string) :
  is_name a = true -> exists x a', a = String x a' /\ x <> sep.
Proof.
  unfold is_name. destruct a as [|x a']; [done|]. simpl.
  intros H. exists x, a'. split; [done|]. intros ->.
  by rewrite Ascii.eqb_refl in H.
Qed.

Lemma name_not_empty (J a : string) :
  is_name a = true -> String.eqb (J +:+ a) "" = false.
Proof.
  intros (x & a' & -> & _)%name_head. apply String.eqb_neq.
  intros Heq. apply (f_equal String.length) in Heq.
  rewrite length_append in Heq. simpl in Heq. lia.
Qed.

Lemma name_not_abs (a : string) : is_name a = true -> isabs a = false.
Proof.
  intros (x & a' & -> & Hx)%name_head. unfold isabs. simpl.
  apply Ascii.eqb_neq in Hx. unfold sep in Hx. by rewrite Hx.
Qed.

(** the leading slashes of a path are those of its directory *)
Lemma initial_slashes_dir (J a b : string) :
  J = "" \/ endswith_sep J = true ->
  is_name a = true -> is_name b = true ->
  initial_slashes (J +:+ a) = initial_slashes (J +:+ b).
Proof.
  intros HJ (x & a' & -> & Hx)%name_head (y & b' & -> & Hy)%name_head.
  assert (Hx' : Ascii.eqb x "/" = false) by (by apply Ascii.eqb_neq).
  assert (Hy' : Ascii.eqb y "/" = false) by (by apply Ascii.eqb_neq).
  unfold initial_slashes.
  destruct J as [|c1 [|c2 [|c3 J]]];
    rewrite ?append_cons, ?append_empty; simpl; rewrite ?Hx', ?Hy';
    repeat (match goal with
            | |- context [Ascii.eqb ?c "/"] =>
                destruct (Ascii.eqb c "/"); simpl; rewrite ?Hx', ?Hy'
            end);
    reflexivity.
Qed.

Lemma endswith_sep_snoc (s : string) : endswith_sep (s +:+ "/") = true.
Proof.
  induction s as [|c s IH]; [reflexivity|].
  rewrite append_cons. simpl. destruct (s +:+ "/") eqn:Hs; [|exact IH].
  by destruct s.
Qed.

Lemma normpath_dir_name (J : string) :
  J = "" \/ endswith_sep J = true ->
  exists P, forall a, is_name a = true -> normpath (J +:+ a) = P +:+ a.
Proof.
  intros HJ.
  assert (exists comps, forall a, is_name a = true ->
            split (J +:+ a) = (comps ++ [a])%list) as [comps Hsplit].
  { destruct HJ as [->|Hend].
    - exists []. intros a [[[Ha _]%andb_true_iff _]%andb_true_iff _]%andb_true_iff.
      rewrite append_empty. by apply split_name.
    - destruct (split_dir J Hend) as (h & t & Hs). exists (h :: t).
      intros a [[[Ha _]%andb_true_iff _]%andb_true_iff _]%andb_true_iff.
      by apply Hs. }
  set (k := initial_slashes (J +:+ "x")).
  destruct (concat_snoc (fold_left (norm_step k) comps [])) as [Q HQ].
  exists (slashes k +:+ Q). intros a Ha. unfold normpath.
  rewrite (name_not_empty J a Ha).
  rewrite (initial_slashes_dir J a "x" HJ Ha eq_refl). fold k. cbv zeta.
  rewrite (Hsplit a Ha), fold_left_app. simpl fold_left.
  rewrite (norm_step_name _ _ _ Ha), HQ, <- append_assoc.
  by rewrite (name_not_empty _ a Ha).
Qed.

(** [abspath] of a name is the name after a prefix that the working
    directory fixes *)
Lemma abspath_name (cwd : string) :
  exists P, forall a, is_name a = true -> abspath cwd a = P +:+ a.
Proof.
  unfold abspath, join.
  destruct (String.eqb cwd "" || endswith_sep cwd) eqn:Hdir.
  - destruct (normpath_dir_name cwd) as [P HP].
    { apply orb_true_iff in Hdir as [?%String.eqb_eq|?]; auto. }
    exists P. intros a Ha. rewrite (name_not_abs a Ha). by apply HP.
  - destruct (normpath_dir_name (cwd +:+ "/")) as [P HP].
    { right. apply endswith_sep_snoc. }
    exists P. intros a Ha. rewrite (name_not_abs a Ha).
    rewrite <- append_assoc. by apply HP.
Qed.

End PosixPaths.

Section Targets.

Lemma length_before_delim (s : string) :
  (String.length (url.before_delim s) <= String.length s)%nat.
Proof.
  induction s as [|c s IH]; simpl; [lia|].
  destruct (url.is_delim c); simpl; lia.
Qed.

Lemma length_percent_decode_upto (n : nat) (s : string) :
  (String.length s <= n)%nat ->
  (String.length (url.percent_decode s) <= String.length s)%nat.
Proof.
  revert s. induction n as [|n IH]; intros [|c s] Hle; simpl in *; try lia.
  pose proof (IH s ltac:(lia)) as Htail.
  destruct (Ascii.eqb c "%"); simpl; [|lia].
  destruct s as [|h [|l rest]]; simpl in *; try lia.
  pose proof (IH rest ltac:(lia)) as Hrest.
  destruct (url.hex_val h), (url.hex_val l); simpl in *; lia.
Qed.

Lemma length_percent_decode (s : string) :
  (String.length (url.percent_decode s) <= String.length s)%nat.
Proof. by apply (length_percent_decode_upto (String.length s)). Qed.

(** the file the browser opens is never the file the script writes *)
Lemma target_not_output (w : World) : target w <> output_path w.
Proof.
  destruct (abspath_name (cwd w)) as [P HP].
  intros Heq. apply (f_equal String.length) in Heq.
  unfold target, output_path, index_path in Heq.
  rewrite !HP in Heq by reflexivity.
  pose proof (length_percent_decode (url.before_delim (P +:+ "index.html"))).
  pose proof (length_before_delim (P +:+ "index.html")).
  rewrite !length_append in *. simpl in *. lia.
Qed.

(** the page and the picture are files of one directory *)
Lemma same_directory (w : World) :
  exists dir, index_path w = dir +:+ "index.html"
              /\ output_path w = dir +:+ "reset-button.png".
Proof.
  destruct (abspath_name (cwd w)) as [P HP].
  exists P. unfold index_path, output_path. by rewrite !HP.
Qed.

End Targets.

(** ** Running the script *)

Section Steps.

Context (E : Engine).

Lemma find_some_filter (selector : string) (d : Document) (el : Element) :
  List.find (matches selector) d = Some el ->
  exists rest, List.filter (matches selector) d = el :: rest.
Proof.
  induction d as [|a d IH]; simpl; [discriminate|].
  destruct (matches selector a); [|exact IH].
  intros [= ->]. eauto.
Qed.

Lemma main_path (w : World) :
  Path E w (result E w) (snd (main E (spawn w))).
Proof.
  unfold result, main, async_with_playwright, start, launch, new_page, goto,
    wait_for_selector, screenshot, print, close, stop, os_path_abspath,
    invoke, guarded, bind, ret, raise, modify, shown.
  destruct (start_fault E) as [e|] eqn:Hs; simpl.
  { by apply start_fails. }
  destruct (launch_fault E) as [e|] eqn:Hl; simpl.
  { by apply launch_fails. }
  destruct (new_page_fault E) as [e|] eqn:Hn; simpl.
  { by apply new_page_fails. }
  destruct (goto_fault E) as [e|] eqn:Hg; simpl.
  { by apply goto_fails. }
  change (url.percent_decode _) with (target w).
  destruct (fs w !! target w) as [c|] eqn:Hf; simpl.
  2: { by apply file_not_found. }
  destruct (visible_at (default_timeout E) "#main-menu" (elements c))
    as [t|] eqn:Hv; simpl.
  2: { by apply (wait_times_out E w c). }
  pose proof Hv as Hfirst. unfold visible_at in Hfirst.
  destruct (List.find (matches "#main-menu") (elements c)) as [el|] eqn:Hfind;
    [|discriminate].
  destruct (find_some_filter _ _ _ Hfind) as [rest Hrest].
  rewrite Hrest. destruct rest as [|el' rest]; simpl.
  2: { by apply (locator_not_strict E w c t el el' rest). }
  rewrite Hfirst. simpl.
  destruct (write_fault E) as [e|] eqn:Hw; simpl.
  { by apply (write_fails E w c t el e). }
  destruct (close_fault E) as [e|] eqn:Hc; simpl.
  { by apply (close_fails E w c t el e). }
  by apply (completes E w c t el).
Qed.

(** the process view of the same *)
Lemma script_path (w : World) :
  exists r w', Path E w r w' /\ result E w = r
    /\ status E w = exit_status r /\ final E w = report r w'.
Proof.
  exists (result E w), (snd (main E (spawn w))).
  split; [apply main_path|]. split; [reflexivity|].
  unfold status, final, script, result.
  by destruct (main E (spawn w)).
Qed.

End Steps.

(** case analysis on the path of a run *)
Ltac on_paths E w :=
  let r := fresh "r" in
  let w' := fresh "w'" in
  let HP := fresh "HP" in
  let Hr := fresh "Hresult" in
  let Hs := fresh "Hstatus" in
  let Hf := fresh "Hfinal" in
  destruct (script_path E w) as (r & w' & HP & Hr & Hs & Hf);
  rewrite ?Hr, ?Hs, ?Hf; clear Hr Hs Hf;
  destruct HP; simpl.

(** ** The properties of the specification *)

(** C2.  However a run ends, it leaves no browser and no driver behind:
    in the world at exit both processes are gone and no page is open;
    and once the browser has been launched, the last call of the run
    is the exit of the [async with] block, which shuts it down. *)
Theorem C2_browser_torn_down (E : Engine) (w : World) :
  browser_up (final E w) = false
  /\ driver_up (final E w) = false
  /\ page (final E w) = None
  /\ (In (CLaunch, None) (log (final E w)) ->
      last (log (final E w)) = Some (CStop, None)).
Proof.
  on_paths E w; repeat split; try reflexivity.
  intros [Hin|[]]. discriminate.
Qed.

(** C6.  The calls of a run are an initial segment of one fixed
    sequence: start, launch, new page, goto, wait, screenshot, print,
    close.  Every call of the segment returned; it is followed by the
    call that raised, if one did, and by the exit of the [async with]
    block unless the entry itself raised.  Nothing is called twice and
    nothing else is called.  The exit status is 0 exactly when the
    whole sequence ran.  If the message has been printed, the
    screenshot call before it has returned, the file is there, and the
    close comes after the message. *)
Theorem C6_linear_order (E : Engine) (w : World) :
  (exists n failed,
      log (final E w)
      = (map returned (take n (sequence w)) ++ failed
         ++ match start_fault E with None => [(CStop, None)] | Some _ => [] end)%list
      /\ match sequence w !! n with
         | Some c => (exists e, failed = [(c, Some e)]) /\ status E w = 1
         | None => failed = [] /\ status E w = 0
         end)
  /\ NoDup (calls (final E w))
  /\ (forall msg o, In (CPrint msg, o) (log (final E w)) ->
      (exists pre post,
          log (final E w)
          = (pre ++ [(CScreenshot "#main-menu" "reset-button.png", None);
                     (CPrint msg, o)] ++ post)%list
          /\ In CClose (map fst post))
      /\ exists img, fs (final E w) !! output_path w = Some (Png img)).
Proof.
  assert (Hnone : forall c msg (o o' : option Error),
             (c, o') = (CPrint msg, o) -> c <> CPrint msg -> False)
    by (intros ???? [= -> _]; congruence).
  on_paths E w;
    match goal with Hs : start_fault E = _ |- _ => rewrite Hs end;
    (split;
     [ | split;
         [ unfold calls; simpl;
           repeat (apply NoDup_cons; split;
                   [rewrite ?elem_of_cons, elem_of_nil; intuition discriminate|]);
           apply NoDup_nil_2
         | intros msg o Hin;
           repeat (destruct Hin as [Hin|Hin];
                   [try (exfalso; eapply Hnone; [exact Hin|discriminate])|]);
           try contradiction ] ]).
  - exists 0, [(CStart, Some e)]. simpl. eauto.
  - exists 1, [(CLaunch, Some e)]. simpl. eauto.
  - exists 2, [(CNewPage, Some e)]. simpl. eauto.
  - exists 3, [(CGoto (index_url w), Some e)]. simpl. eauto.
  - exists 3, [(CGoto (index_url w), Some e)]. simpl. eauto.
  - exists 4, [(CWaitForSelector "#main-menu", Some e)]. simpl. eauto.
  - exists 5, [(CScreenshot "#main-menu" "reset-button.png", Some e)].
    simpl. eauto.
  - exists 5, [(CScreenshot "#main-menu" "reset-button.png", Some e)].
    simpl. eauto.
  - exists 7, [(CClose, Some e)]. simpl. eauto.
  - injection Hin as <- <-. split.
    + exists (map returned (take 5 (sequence w))),
        [(CClose, Some e); (CStop, None)].
      split; [reflexivity | simpl; tauto].
    + eexists. apply lookup_insert_eq.
  - exists 8, []. simpl. eauto.
  - injection Hin as <- <-. split.
    + exists (map returned (take 5 (sequence w))),
        [(CClose, None); (CStop, None)].
      split; [reflexivity | simpl; tauto].
    + eexists. apply lookup_insert_eq.
Qed.

(** C5.  An error raised by a call is not caught, wrapped or retried:
    it is what [main] raises, it is what the interpreter reports, and
    the exit status is 1.  Every call before the failing one returned,
    the failing call was made once, and only the exit of the
    [async with] block follows it.  Unless the failing call is the
    final close, the run has written no file and printed nothing. *)
Theorem C5_errors_propagate (E : Engine) (w : World) (c : Call) (e : Error) :
  In (c, Some e) (log (final E w)) ->
  result E w = Raise e
  /\ status E w = 1
  /\ stderr (final E w) = [e]
  /\ (exists n,
        sequence w !! n = Some c
        /\ log (final E w)
           = (map returned (take n (sequence w))
              ++ (c, Some e) :: match n with
                                | 0 => []
                                | S _ => [(CStop, None)]
                                end)%list)
  /\ (c <> CClose -> fs (final E w) = fs w /\ stdout (final E w) = []).
Proof.
  assert (Hsome : forall (c' : Call) (P : Prop),
             returned c' = (c, Some e) -> P)
    by (intros ?? [=]).
  on_paths E w; intros Hin;
    repeat (destruct Hin as [Hin|Hin];
            [first [ exact (Hsome _ _ Hin) | injection Hin as <- <- ] |]);
    try contradiction.
  all: repeat split; try done.
  - by exists 0.
  - by exists 1.
  - by exists 2.
  - by exists 3.
  - by exists 3.
  - by exists 4.
  - by exists 5.
  - by exists 5.
  - by exists 7.
Qed.


(** for a plain path the browser opens the very file the script named *)
Lemma target_plain (w : World) :
  url.plain (index_path w) = true -> target w = index_path w.
Proof.
  intros Hp. unfold target.
  by rewrite before_delim_plain, percent_decode_plain.
Qed.

(** C1, as amended.  In a working directory whose path is made of
    letters, digits, [-], [.], [_], [~] and [/], with a valid
    [index.html] in which [#main-menu] becomes visible within the
    default timeout, and on a host that fails none of the calls (the
    browser starts, the file can be written, ...), the run exits with
    status 0, [reset-button.png] in the working directory is a picture,
    and the one line on standard output ends in that file name. *)
Theorem C1_success (E : Engine) (w : World) (d : Document) (t : nat) :
  no_faults E ->
  url.plain (index_path w) = true ->
  fs w !! index_path w = Some (Html d) ->
  valid d ->
  visible_at (default_timeout E) "#main-menu" d = Some t ->
  status E w = 0
  /\ (exists img, fs (final E w) !! output_path w = Some (Png img))
  /\ stdout (final E w) = ["Screenshot saved to " +:+ "reset-button.png"].
Proof.
  intros (Hs & Hl & Hn & Hg & Hw & Hc) Hplain Hfile Hvalid Hvis.
  rewrite <- (target_plain w Hplain) in Hfile.
  on_paths E w; try congruence;
    match goal with
    | Hf : fs w !! target w = Some _ |- _ =>
        rewrite Hfile in Hf; injection Hf as <-; simpl in *
    end;
    try congruence.
  - unfold visible_at in Hvis.
    destruct (List.find (matches "#main-menu") d) as [el0|] eqn:Hfind;
      [|discriminate].
    rewrite (valid_single_match _ _ _ Hvalid Hfind) in *. discriminate.
  - split; [reflexivity|]. split; [|reflexivity].
    eexists. apply lookup_insert_eq.
Qed.

(** Where the URL carries the path unchanged, a missing [index.html]
    is noticed: in a working directory whose path is made of letters,
    digits, [-], [.], [_], [~] and [/] and that has no [index.html],
    the run exits with status 1, it never calls the screenshot, and it
    leaves every file as it was. *)
Lemma missing_index_on_plain_path (E : Engine) (w : World) :
  url.plain (index_path w) = true ->
  fs w !! index_path w = None ->
  status E w = 1
  /\ (forall selector path o,
        ~ In (CScreenshot selector path, o) (log (final E w)))
  /\ fs (final E w) = fs w.
Proof.
  intros Hplain Hfile. rewrite <- (target_plain w Hplain) in Hfile.
  on_paths E w; try congruence.
  all: split; [reflexivity|]; split; [|reflexivity].
  all: intros selector path o Hin.
  all: repeat (destruct Hin as [Hin|Hin]; [discriminate|]); done.
Qed.

(** C4.  If the navigation returned, and the page it loaded has no
    [#main-menu] that becomes visible within the default timeout, then
    the wait raises a timeout error once the default timeout has
    passed on the clock; that error ends the run with status 1; the
    screenshot is never called and no file is touched. *)
Theorem C4_visibility_timeout (E : Engine) (w : World) (c : Content) :
  In (CGoto (index_url w), None) (log (final E w)) ->
  fs w !! target w = Some c ->
  visible_at (default_timeout E) "#main-menu" (elements c) = None ->
  status E w = 1
  /\ result E w = Raise (timeout_error "#main-menu")
  /\ In (CWaitForSelector "#main-menu", Some (timeout_error "#main-menu"))
       (log (final E w))
  /\ clock (final E w) = clock w + default_timeout E
  /\ (forall selector path o,
        ~ In (CScreenshot selector path, o) (log (final E w)))
  /\ fs (final E w) = fs w.
Proof.
  on_paths E w; intros Hin Hfile Hvis.
  all: try (repeat (destruct Hin as [Hin|Hin]; [discriminate|]); done).
  all: try congruence.
  repeat split; try tauto.
  intros selector path o Hshot.
  repeat (destruct Hshot as [Hshot|Hshot]; [discriminate|]). done.
Qed.

(** two runs on the same host, from worlds with the same working
    directory, files and clock, take the same path *)
Lemma Path_same_env (E : Engine) (w1 w2 : World) (r1 r2 : Res unit)
    (w1' w2' : World) :
  cwd w1 = cwd w2 -> fs w1 = fs w2 -> clock w1 = clock w2 ->
  Path E w1 r1 w1' -> Path E w2 r2 w2' ->
  r1 = r2 /\ log w1' = log w2' /\ stdout w1' = stdout w2'
  /\ fs w1' = fs w2' /\ clock w1' = clock w2'
  /\ environ w1' = environ w1 /\ argv w1' = argv w1.
Proof.
  intros Hcwd Hfs Hclock HP1 HP2.
  assert (Htarget : target w1 = target w2)
    by (unfold target, index_path; by rewrite Hcwd).
  assert (Hurl : index_url w1 = index_url w2)
    by (unfold index_url, index_path; by rewrite Hcwd).
  assert (Hout : output_path w1 = output_path w2)
    by (unfold output_path; by rewrite Hcwd).
  destruct HP1, HP2; simpl; unfold written, capture; simpl;
    rewrite ?Hurl, ?Hout, ?Hclock, ?Hfs;
    rewrite ?Htarget, ?Hfs in *; try congruence.
  all: repeat match goal with x := _ |- _ => subst x end.
  all: repeat split; congruence.
Qed.

(** C8.  The script reads neither the environment nor the command
    line: two runs on the same host from worlds that differ at most in
    their environment variables and arguments make the same calls with
    the same arguments and outcomes, print the same, leave the same
    files and exit with the same status; and the run leaves the
    environment and the arguments as they were. *)
Theorem C8_environment_noninterference (E : Engine) (w1 w2 : World) :
  same_but_env w1 w2 ->
  status E w1 = status E w2
  /\ log (final E w1) = log (final E w2)
  /\ stdout (final E w1) = stdout (final E w2)
  /\ stderr (final E w1) = stderr (final E w2)
  /\ fs (final E w1) = fs (final E w2)
  /\ environ (final E w1) = environ w1
  /\ argv (final E w1) = argv w1.
Proof.
  intros (Hcwd & Hfs & Hclock & _).
  destruct (script_path E w1) as (r1 & w1' & HP1 & _ & -> & ->).
  destruct (script_path E w2) as (r2 & w2' & HP2 & _ & -> & ->).
  destruct (Path_same_env E w1 w2 r1 r2 w1' w2' Hcwd Hfs Hclock HP1 HP2)
    as (<- & Hlog & Hout & Hfiles & _ & Henv & Hargv).
  assert (Herr : stderr w1' = stderr w2')
    by (destruct HP1, HP2; reflexivity).
  destruct r1 as [[]|e]; simpl; rewrite ?Herr; auto 10.
Qed.

(** what a complete run has met, and what it leaves *)
Lemma completed_run (E : Engine) (w : World) :
  status E w = 0 ->
  exists c t el,
    no_faults E
    /\ fs w !! target w = Some c
    /\ visible_at (default_timeout E) "#main-menu" (elements c) = Some t
    /\ List.filter (matches "#main-menu") (elements c) = [el]
    /\ final E w
       = left_world w (written E w c t el) (clock w + t)
           ["Screenshot saved to reset-button.png"]
           (map returned (sequence w) ++ [(CStop, None)]).
Proof.
  on_paths E w; intros Hexit; try discriminate.
  exists c, t, el. by repeat split.
Qed.

(** and the other way round *)
Lemma run_completes (E : Engine) (w : World) (c : Content) (t : nat)
    (el : Element) :
  no_faults E ->
  fs w !! target w = Some c ->
  visible_at (default_timeout E) "#main-menu" (elements c) = Some t ->
  List.filter (matches "#main-menu") (elements c) = [el] ->
  status E w = 0
  /\ final E w
     = left_world w (written E w c t el) (clock w + t)
         ["Screenshot saved to reset-button.png"]
         (map returned (sequence w) ++ [(CStop, None)]).
Proof.
  intros (Hs & Hl & Hn & Hg & Hw & Hc) Hfile Hvis Hone.
  on_paths E w; try congruence.
  assert (c0 = c) as -> by congruence.
  assert (t0 = t) as -> by congruence.
  assert (el0 = el) as -> by congruence.
  done.
Qed.


(** C10.  The URL of every navigation of a run is [file://] followed
    by [os.path.abspath('index.html')], character for character; once
    the page is open, that navigation is made.  Nothing is escaped: in
    the directory [/srv/menu.html#v2] the URL keeps the [#] of the
    path, and the file it designates is [/srv/menu.html], not the
    [index.html] of the directory. *)
Theorem C10_url_is_concatenation (E : Engine) (w : World) :
  (forall u o, In (CGoto u, o) (log (final E w)) ->
     u = "file://" +:+ posixpath.abspath (cwd w) "index.html")
  /\ (In (CNewPage, None) (log (final E w)) ->
      exists o, In (CGoto ("file://" +:+ posixpath.abspath (cwd w) "index.html"), o)
                  (log (final E w)))
  /\ index_url fragment_world = "file:///srv/menu.html#v2/index.html"
  /\ url.file_of_url (index_url fragment_world) = Some "/srv/menu.html"
  /\ index_path fragment_world = "/srv/menu.html#v2/index.html".
Proof.
  split; [|split; [|by vm_compute]].
  - intros u o. on_paths E w; intros Hin.
    all: repeat (destruct Hin as [Hin|Hin];
                 [first [discriminate | by injection Hin as <- _]|]); done.
  - on_paths E w; intros Hin.
    all: try (repeat (destruct Hin as [Hin|Hin]; [discriminate|]); done).
    all: eexists; simpl; do 3 right; left; reflexivity.
Qed.

(** ** The properties at concrete runs *)

Lemma valid_single (el : Element) : valid [el].
Proof. unfold valid. simpl. apply NoDup_singleton. Qed.

(** C1 as it was stated fails in a directory that cannot be written:
    [index.html] is valid and its menu shows after 120 ms, yet the run
    exits with status 1. *)
Lemma C1_counterexample_readonly_directory :
  ~ (fs repo_world !! index_path repo_world = Some (Html [main_menu]) ->
     valid [main_menu] ->
     visible_at (default_timeout readonly_engine) "#main-menu" [main_menu]
       = Some 120 ->
     status readonly_engine repo_world = 0
     /\ (exists img,
           fs (final readonly_engine repo_world) !! output_path repo_world
           = Some (Png img))
     /\ stdout (final readonly_engine repo_world)
        = ["Screenshot saved to " +:+ "reset-button.png"]).
Proof.
  intros Hstated.
  destruct Hstated as [Hexit _];
    [by vm_compute | apply valid_single | by vm_compute |].
  vm_compute in Hexit. discriminate.
Qed.

Lemma C1_success_witness :
  (no_faults sound_engine
   /\ url.plain (index_path repo_world) = true
   /\ fs repo_world !! index_path repo_world = Some (Html [main_menu])
   /\ valid [main_menu]
   /\ visible_at (default_timeout sound_engine) "#main-menu" [main_menu]
      = Some 120)
  /\ status sound_engine repo_world = 0
  /\ (exists img,
        fs (final sound_engine repo_world) !! output_path repo_world
        = Some (Png img))
  /\ stdout (final sound_engine repo_world)
     = ["Screenshot saved to " +:+ "reset-button.png"].
Proof.
  assert (Hhyp : no_faults sound_engine
   /\ url.plain (index_path repo_world) = true
   /\ fs repo_world !! index_path repo_world = Some (Html [main_menu])
   /\ valid [main_menu]
   /\ visible_at (default_timeout sound_engine) "#main-menu" [main_menu]
      = Some 120).
  { split; [repeat split|]. split; [by vm_compute|].
    split; [by vm_compute|]. split; [apply valid_single | by vm_compute]. }
  split; [exact Hhyp|].
  destruct Hhyp as (H1 & H2 & H3 & H4 & H5).
  exact (C1_success sound_engine repo_world [main_menu] 120 H1 H2 H3 H4 H5).
Defined.

Lemma C2_browser_torn_down_witness :
  In (CLaunch, None) (log (final sound_engine hidden_world))
  /\ last (log (final sound_engine hidden_world)) = Some (CStop, None).
Proof.
  assert (Hin : In (CLaunch, None) (log (final sound_engine hidden_world)))
    by (vm_compute; auto).
  split; [exact Hin|].
  exact (proj2 (proj2 (proj2
           (C2_browser_torn_down sound_engine hidden_world))) Hin).
Defined.

(** C3.  The script means to open the [index.html] of the working
    directory, but it puts the path into the URL unescaped.  In the
    directory [/srv/menu.html#v2], which has no [index.html], the URL
    is [file:///srv/menu.html#v2/index.html]; the browser opens
    [/srv/menu.html], the run calls the screenshot, creates
    [reset-button.png], prints the confirmation and exits with status
    0, where a missing [index.html] should have ended it with a
    failure before the screenshot. *)
Theorem C3_fragment_directory_run :
  fs fragment_world !! index_path fragment_world = None
  /\ fs fragment_world !! output_path fragment_world = None
  /\ index_url fragment_world = "file:///srv/menu.html#v2/index.html"
  /\ target fragment_world = "/srv/menu.html"
  /\ status sound_engine fragment_world = 0
  /\ In (CScreenshot "#main-menu" "reset-button.png", None)
       (log (final sound_engine fragment_world))
  /\ fs (final sound_engine fragment_world) !! output_path fragment_world
     = Some (Png (capture sound_engine
                    (at_screenshot fragment_world (Html [main_menu]) 120)
                    main_menu))
  /\ stdout (final sound_engine fragment_world)
     = ["Screenshot saved to reset-button.png"].
Proof.
  repeat split; try (by vm_compute).
  vm_compute. auto 10.
Qed.

Lemma missing_index_on_plain_path_witness :
  (url.plain (index_path empty_world) = true
   /\ fs empty_world !! index_path empty_world = None)
  /\ status sound_engine empty_world = 1
  /\ (forall selector path o,
        ~ In (CScreenshot selector path, o)
            (log (final sound_engine empty_world)))
  /\ fs (final sound_engine empty_world) = fs empty_world.
Proof.
  assert (H1 : url.plain (index_path empty_world) = true) by (by vm_compute).
  assert (H2 : fs empty_world !! index_path empty_world = None)
    by (by vm_compute).
  split; [by split|].
  exact (missing_index_on_plain_path sound_engine empty_world H1 H2).
Defined.

Lemma C4_visibility_timeout_witness :
  (In (CGoto (index_url hidden_world), None)
      (log (final sound_engine hidden_world))
   /\ fs hidden_world !! target hidden_world = Some (Html [hidden_menu])
   /\ visible_at (default_timeout sound_engine) "#main-menu" [hidden_menu]
      = None)
  /\ status sound_engine hidden_world = 1
  /\ clock (final sound_engine hidden_world)
     = clock hidden_world + default_timeout sound_engine.
Proof.
  assert (H1 : In (CGoto (index_url hidden_world), None)
                 (log (final sound_engine hidden_world)))
    by (vm_compute; auto 10).
  assert (H2 : fs hidden_world !! target hidden_world
               = Some (Html [hidden_menu])) by (by vm_compute).
  assert (H3 : visible_at (default_timeout sound_engine) "#main-menu"
                 (elements (Html [hidden_menu])) = None) by (by vm_compute).
  split; [by repeat split|].
  pose proof (C4_visibility_timeout sound_engine hidden_world
                (Html [hidden_menu]) H1 H2 H3) as (Hs & _ & _ & Hc & _).
  by split.
Defined.

Lemma C5_errors_propagate_witness :
  let e := PlaywrightError
             ("net::ERR_FILE_NOT_FOUND at " +:+ index_url empty_world) in
  In (CGoto (index_url empty_world), Some e)
     (log (final sound_engine empty_world))
  /\ result sound_engine empty_world = Raise e
  /\ status sound_engine empty_world = 1
  /\ stderr (final sound_engine empty_world) = [e].
Proof.
  intros e.
  assert (Hin : In (CGoto (index_url empty_world), Some e)
                  (log (final sound_engine empty_world)))
    by (vm_compute; auto 10).
  split; [exact Hin|].
  pose proof (C5_errors_propagate sound_engine empty_world _ _ Hin)
    as (Hr & Hs & He & _).
  by repeat split.
Defined.

Lemma C6_linear_order_witness :
  In (CPrint "Screenshot saved to reset-button.png", None)
     (log (final sound_engine repo_world))
  /\ exists img,
       fs (final sound_engine repo_world) !! output_path repo_world
       = Some (Png img).
Proof.
  assert (Hin : In (CPrint "Screenshot saved to reset-button.png", None)
                  (log (final sound_engine repo_world)))
    by (vm_compute; auto 10).
  split; [exact Hin|].
  exact (proj2 (proj2 (proj2 (C6_linear_order sound_engine repo_world))
                  _ _ Hin)).
Defined.


Lemma C8_environment_noninterference_witness :
  (same_but_env repo_world repo_world_env
   /\ environ repo_world <> environ repo_world_env
   /\ argv repo_world <> argv repo_world_env)
  /\ status sound_engine repo_world = status sound_engine repo_world_env
  /\ log (final sound_engine repo_world)
     = log (final sound_engine repo_world_env).
Proof.
  assert (Hsame : same_but_env repo_world repo_world_env)
    by (repeat split).
  split; [split; [exact Hsame | split; discriminate]|].
  pose proof (C8_environment_noninterference sound_engine _ _ Hsame)
    as (Hs & Hl & _).
  by split.
Defined.


Lemma C10_url_is_concatenation_witness :
  In (CGoto "file:///srv/menu.html#v2/index.html", None)
     (log (final sound_engine fragment_world))
  /\ "file:///srv/menu.html#v2/index.html"
     = "file://" +:+ posixpath.abspath (cwd fragment_world) "index.html".
Proof.
  assert (Hin : In (CGoto "file:///srv/menu.html#v2/index.html", None)
                  (log (final sound_engine fragment_world)))
    by (vm_compute; auto 10).
  split; [exact Hin|].
  exact (proj1 (C10_url_is_concatenation sound_engine fragment_world)
           _ _ Hin).
Defined.

(** * Further properties of the script *)

(** ** What a run leaves alone *)

(** the file of the page is not the file of the picture *)
Lemma index_not_output (w : World) : index_path w <> output_path w.
Proof.
  destruct (same_directory w) as (dir & -> & ->).
  intros Heq. apply (inj (String.append dir)) in Heq. discriminate.
Qed.

(** a run changes no file but the one it writes *)
Lemma run_frame (E : Engine) (w : World) (path : string) :
  path <> output_path w -> fs (final E w) !! path = fs w !! path.
Proof.
  intros Hne. on_paths E w; try reflexivity.
  all: unfold written; by rewrite lookup_insert_ne.
Qed.

Lemma run_cwd (E : Engine) (w : World) : cwd (final E w) = cwd w.
Proof. on_paths E w; reflexivity. Qed.

(** two runs on one host, from worlds with the same working directory
    and the same file behind the URL, take the same path *)
Lemma Path_same_target (E : Engine) (w1 w2 : World) (r1 r2 : Res unit)
    (w1' w2' : World) :
  cwd w1 = cwd w2 -> fs w1 !! target w1 = fs w2 !! target w2 ->
  Path E w1 r1 w1' -> Path E w2 r2 w2' ->
  r1 = r2 /\ log w1' = log w2' /\ stdout w1' = stdout w2'.
Proof.
  intros Hcwd Hfile HP1 HP2.
  assert (Hurl : index_url w1 = index_url w2)
    by (unfold index_url, index_path; by rewrite Hcwd).
  destruct HP1, HP2; simpl; rewrite ?Hurl; rewrite ?Hfile in *;
    try congruence.
  all: repeat match goal with x := _ |- _ => subst x end.
  all: repeat split; congruence.
Qed.

Lemma same_target_same_run (E : Engine) (w1 w2 : World) :
  cwd w1 = cwd w2 -> fs w1 !! target w1 = fs w2 !! target w2 ->
  status E w1 = status E w2
  /\ log (final E w1) = log (final E w2)
  /\ stdout (final E w1) = stdout (final E w2).
Proof.
  intros Hcwd Hfile.
  destruct (script_path E w1) as (r1 & w1' & HP1 & _ & -> & ->).
  destruct (script_path E w2) as (r2 & w2' & HP2 & _ & -> & ->).
  destruct (Path_same_target E w1 w2 r1 r2 w1' w2' Hcwd Hfile HP1 HP2)
    as (<- & Hlog & Hout).
  by destruct r1 as [[]|e].
Qed.

(** X1.  Whatever its outcome, a run changes no file other than
    [reset-button.png] in the working directory; [index.html] in
    particular is left as it was, and so is the working directory. *)
Theorem run_writes_only_output (E : Engine) (w : World) :
  (forall path, path <> output_path w ->
     fs (final E w) !! path = fs w !! path)
  /\ fs (final E w) !! index_path w = fs w !! index_path w
  /\ cwd (final E w) = cwd w.
Proof.
  split; [intros path; apply run_frame|].
  split; [apply run_frame, index_not_output | apply run_cwd].
Qed.

Lemma run_writes_only_output_witness :
  "/home/dev/appcoffee11/style.css" <> output_path repo_world_again
  /\ fs (final sound_engine repo_world_again)
       !! "/home/dev/appcoffee11/style.css"
     = fs repo_world_again !! "/home/dev/appcoffee11/style.css".
Proof.
  assert (Hne : "/home/dev/appcoffee11/style.css"
                <> output_path repo_world_again) by (by vm_compute).
  split; [exact Hne|].
  exact (proj1 (run_writes_only_output sound_engine repo_world_again) _ Hne).
Defined.

(** ** What a failing close leaves behind *)



(** ** The confirmation *)

(** X3.  Standard output of a run is empty or the one confirmation line.
    The line is there exactly when the screenshot call has returned,
    whether or not the close after it succeeds; when that call has
    not returned, the run has printed nothing and has changed no
    file. *)
Theorem confirmation_iff_screenshot (E : Engine) (w : World) :
  (In (CScreenshot "#main-menu" "reset-button.png", None) (log (final E w)) ->
     stdout (final E w) = ["Screenshot saved to reset-button.png"])
  /\ (~ In (CScreenshot "#main-menu" "reset-button.png", None)
          (log (final E w)) ->
      stdout (final E w) = [] /\ fs (final E w) = fs w).
Proof.
  on_paths E w; split; intros Hin; try done.
  all: try (repeat (destruct Hin as [Hin|Hin]; [discriminate|]); done).
  all: exfalso; apply Hin; simpl; unfold returned; auto 10.
Qed.

Lemma confirmation_iff_screenshot_witness :
  In (CScreenshot "#main-menu" "reset-button.png", None)
     (log (final closing_engine repo_world))
  /\ stdout (final closing_engine repo_world)
     = ["Screenshot saved to reset-button.png"].
Proof.
  assert (Hin : In (CScreenshot "#main-menu" "reset-button.png", None)
                  (log (final closing_engine repo_world)))
    by (vm_compute; auto 10).
  split; [exact Hin|].
  exact (proj1 (confirmation_iff_screenshot closing_engine repo_world) Hin).
Defined.

(** ** Runs do not depend on what an earlier run wrote *)

Lemma with_output_target (x : option Content) (w : World) :
  fs (with_output x w) !! target (with_output x w) = fs w !! target w.
Proof.
  change (target (with_output x w)) with (target w). unfold with_output.
  simpl. apply lookup_partial_alter_ne. intros Heq.
  by apply (target_not_output w).
Qed.

(** X4.  The script never reads [reset-button.png]: with any other content
    in its place, or with none, the run has the same exit status,
    makes the same calls with the same outcomes and prints the same;
    and when it completes, it leaves the same files. *)
Theorem old_output_is_irrelevant (E : Engine) (w : World)
    (x : option Content) :
  status E (with_output x w) = status E w
  /\ log (final E (with_output x w)) = log (final E w)
  /\ stdout (final E (with_output x w)) = stdout (final E w)
  /\ (status E w = 0 ->
      fs (final E (with_output x w)) = fs (final E w)).
Proof.
  destruct (same_target_same_run E (with_output x w) w eq_refl
              (with_output_target x w)) as (Hs & Hl & Ho).
  repeat split; try done.
  intros Hexit.
  destruct (completed_run E w Hexit)
    as (c & t & el & Hok & Hc & Hvis & Hel & ->).
  assert (Hc' : fs (with_output x w) !! target (with_output x w) = Some c)
    by (by rewrite with_output_target).
  destruct (run_completes E (with_output x w) c t el Hok Hc' Hvis Hel)
    as [_ ->].
  simpl. unfold written, capture. simpl.
  change (output_path (with_output x w)) with (output_path w).
  apply map_eq. intros k.
  destruct (decide (k = output_path w)) as [->|Hne].
  - by rewrite !lookup_insert_eq.
  - rewrite !lookup_insert_ne by done. by apply lookup_partial_alter_ne.
Qed.

(** X5.  A run is not affected by the runs before it: after any run, on any
    host, the next run has the status, the calls with their outcomes
    and the output it would have had without the earlier run. *)
Theorem earlier_run_is_irrelevant (E1 E2 : Engine) (w : World) :
  status E2 (final E1 w) = status E2 w
  /\ log (final E2 (final E1 w)) = log (final E2 w)
  /\ stdout (final E2 (final E1 w)) = stdout (final E2 w).
Proof.
  apply same_target_same_run; [apply run_cwd|].
  assert (Ht : target (final E1 w) = target w)
    by (unfold target, index_path; by rewrite run_cwd).
  rewrite Ht. apply run_frame. apply target_not_output.
Qed.

(** ** The two paths in a working directory

    [os.getcwd()] returns the names from the root down, joined by
    single separators. *)

Section Rooted.

Import posixpath.

Lemma split_name_sep (a rest : string) :
  no_sep a = true -> split (a +:+ String sep rest) = a :: split rest.
Proof.
  induction a as [|c a IH]; intros Ha.
  - rewrite append_empty. simpl. reflexivity.
  - simpl in Ha. apply andb_true_iff in Ha as [Hc Ha].
    apply negb_true_iff in Hc.
    rewrite append_cons. cbn [split]. rewrite Hc. by rewrite IH.
Qed.

Lemma is_name_no_sep (a : string) : is_name a = true -> no_sep a = true.
Proof.
  unfold is_name.
  by intros [[[Ha _]%andb_true_iff _]%andb_true_iff _]%andb_true_iff.
Qed.

Lemma concat_cons_cons (a b : string) (l : list string) :
  String.concat "/" (a :: b :: l) = a +:+ String sep (String.concat "/" (b :: l)).
Proof. reflexivity. Qed.

(** splitting undoes joining, for names *)
Lemma split_concat (l : list string) :
  l <> [] -> Forall (fun a => is_name a = true) l ->
  split (String.concat "/" l) = l.
Proof.
  induction l as [|a [|b l] IH]; intros Hne Hall; [done| |].
  - simpl. apply split_name, is_name_no_sep. by inversion Hall.
  - rewrite concat_cons_cons. inversion Hall as [|?? Ha Hrest]; subst.
    rewrite split_name_sep by by apply is_name_no_sep.
    by rewrite IH.
Qed.

Lemma fold_names (init : nat) (l acc : list string) :
  Forall (fun a => is_name a = true) l ->
  fold_left (norm_step init) l acc = (acc ++ l)%list.
Proof.
  revert acc. induction l as [|a l IH]; intros acc Hall; simpl.
  - by rewrite app_nil_r.
  - inversion Hall as [|?? Ha Hrest]; subst.
    rewrite (norm_step_name _ _ _ Ha), IH by done.
    by rewrite <- app_assoc.
Qed.

Lemma rooted_cons (a : string) (l : list string) :
  is_name a = true ->
  exists x a' rest, rooted (a :: l) = String sep (String x (a' +:+ rest))
                    /\ x <> sep.
Proof.
  intros (x & a' & -> & Hx)%name_head. unfold rooted.
  destruct l as [|b l].
  - exists x, a', "". split; [|done]. simpl.
    rewrite append_cons, append_empty.
    f_equal. f_equal. clear. induction a' as [|c a' IH]; [done|].
    by rewrite append_cons, <- IH.
  - exists x, a', (String sep (String.concat "/" (b :: l))). split; [|done].
    rewrite concat_cons_cons. by rewrite append_cons, append_empty, append_cons.
Qed.

(** a well-formed path is its own normal form *)
Lemma normpath_rooted (l : list string) :
  l <> [] -> Forall (fun a => is_name a = true) l ->
  normpath (rooted l) = rooted l.
Proof.
  intros Hne Hall. destruct l as [|a l]; [done|].
  inversion Hall as [|?? Ha Hrest]; subst.
  destruct (rooted_cons a l Ha) as (x & a' & rest & Hshape & Hx).
  assert (Hinit : initial_slashes (rooted (a :: l)) = 1).
  { rewrite Hshape. unfold initial_slashes. simpl.
    apply Ascii.eqb_neq in Hx. unfold sep in Hx. by rewrite Hx. }
  assert (Hsplit : split (rooted (a :: l)) = "" :: a :: l).
  { unfold rooted. rewrite append_cons, append_empty. cbn [split].
    rewrite Ascii.eqb_refl. by rewrite split_concat. }
  assert (Hnonempty : String.eqb (rooted (a :: l)) "" = false)
    by reflexivity.
  assert (Hskip : norm_step 1 [] "" = []) by reflexivity.
  unfold normpath. rewrite Hnonempty, Hinit, Hsplit.
  cbn [fold_left]. rewrite Hskip, fold_names by done.
  rewrite (norm_step_name 1 [] a Ha).
  change (slashes 1 +:+ String.concat "/" (([] ++ [a]) ++ l))
    with (rooted (a :: l)).
  by rewrite Hnonempty.
Qed.

Lemma endswith_sep_name (s a : string) :
  is_name a = true -> endswith_sep (s +:+ a) = false.
Proof.
  intros Ha. pose proof (is_name_no_sep a Ha) as Hsep.
  destruct (name_head a Ha) as (x & a' & -> & _). clear Ha.
  induction s as [|c s IH].
  - rewrite append_empty. revert x Hsep.
    induction a' as [|y a' IHa]; intros x Hsep; simpl in *.
    + apply andb_true_iff in Hsep as [Hx _]. by apply negb_true_iff.
    + apply andb_true_iff in Hsep as [_ Hrest]. by apply IHa.
  - rewrite append_cons. simpl.
    destruct (s +:+ String x a') eqn:Hs; [by destruct s|]. exact IH.
Qed.

Lemma rooted_snoc (l : list string) (a : string) :
  l <> [] ->
  rooted (l ++ [a]) = rooted l +:+ "/" +:+ a.
Proof.
  intros Hne. unfold rooted. rewrite append_assoc. f_equal.
  induction l as [|b l IH]; [done|].
  destruct l as [|b' l].
  - simpl. reflexivity.
  - change ((b :: b' :: l) ++ [a])%list with (b :: b' :: (l ++ [a]))%list.
    rewrite !concat_cons_cons.
    change (b' :: (l ++ [a]))%list with ((b' :: l) ++ [a])%list.
    rewrite IH by done. by rewrite append_assoc.
Qed.

(** In a working directory made of names, [abspath] of a file name is
    the directory, a separator, and the name; in the root it is the
    separator and the name. *)
Lemma abspath_rooted (l : list string) (a : string) :
  Forall (fun a => is_name a = true) l -> is_name a = true ->
  abspath (rooted l) a = rooted (l ++ [a]).
Proof.
  intros Hall Ha. unfold abspath. rewrite (name_not_abs a Ha).
  assert (Hall' : Forall (fun a => is_name a = true) (l ++ [a])%list)
    by (apply Forall_app; split; [done | by constructor]).
  rewrite <- (normpath_rooted (l ++ [a])) by (done || by destruct l).
  f_equal. unfold join. rewrite (name_not_abs a Ha).
  destruct l as [|b l].
  - reflexivity.
  - rewrite rooted_snoc by done.
    assert (Hend : endswith_sep (rooted (b :: l)) = false).
    { destruct (exists_last (l:=b :: l)) as (front & z & Hlast); [done|].
      rewrite Hlast in Hall |- *.
      apply Forall_app in Hall as [_ Hz]. inversion Hz as [|?? Hname _]; subst.
      destruct (concat_snoc front) as [Q HQ].
      unfold rooted. rewrite HQ, <- append_assoc.
      by apply endswith_sep_name. }
    assert (Hne : String.eqb (rooted (b :: l)) "" = false) by reflexivity.
    by rewrite Hne, Hend.
Qed.

End Rooted.

(** X6.  In a working directory as the system reports it, the script reads
    [index.html] and writes [reset-button.png] directly in that
    directory: below the root, [html_file_path] is the directory
    followed by [/index.html], the URL is [file://] followed by that,
    and the picture lands at the directory followed by
    [/reset-button.png]. *)
Theorem paths_in_working_directory (w : World) (comps : list string) :
  cwd w = rooted comps ->
  Forall (fun a => posixpath.is_name a = true) comps ->
  index_path w = rooted (comps ++ ["index.html"])
  /\ output_path w = rooted (comps ++ ["reset-button.png"])
  /\ (comps <> [] ->
      index_path w = cwd w +:+ "/index.html"
      /\ index_url w = "file://" +:+ cwd w +:+ "/index.html"
      /\ output_path w = cwd w +:+ "/reset-button.png").
Proof.
  intros Hcwd Hall. unfold index_url, index_path, output_path.
  rewrite Hcwd, !abspath_rooted by done.
  split; [done|]. split; [done|]. intros Hne.
  by rewrite !rooted_snoc.
Qed.

Lemma paths_in_working_directory_witness :
  (cwd repo_world = rooted ["home"; "dev"; "appcoffee11"]
   /\ Forall (fun a => posixpath.is_name a = true)
        ["home"; "dev"; "appcoffee11"])
  /\ index_url repo_world = "file://" +:+ cwd repo_world +:+ "/index.html"
  /\ output_path repo_world = cwd repo_world +:+ "/reset-button.png".
Proof.
  assert (Hcwd : cwd repo_world = rooted ["home"; "dev"; "appcoffee11"])
    by reflexivity.
  assert (Hall : Forall (fun a => posixpath.is_name a = true)
                   ["home"; "dev"; "appcoffee11"])
    by (repeat constructor).
  split; [by split|].
  destruct (paths_in_working_directory repo_world _ Hcwd Hall)
    as (_ & _ & Hbelow).
  destruct Hbelow as (_ & Hurl & Hout); [discriminate|].
  by split.
Defined.

Section Absolute.

Import posixpath.

Lemma isabs_append (p q : string) : isabs p = true -> isabs (p +:+ q) = true.
Proof. destruct p as [|c p]; [discriminate|]. by rewrite append_cons. Qed.

(** [normpath] keeps an absolute path absolute *)
Lemma normpath_abs (p : string) : isabs p = true -> isabs (normpath p) = true.
Proof.
  intros Habs. destruct p as [|c p]; [discriminate|].
  unfold normpath.
  assert (Hne : String.eqb (String c p) "" = false) by reflexivity.
  rewrite Hne. unfold initial_slashes. unfold isabs in Habs. rewrite Habs.
  cbn [negb].
  destruct (startswith (String c p) "//" && negb (startswith (String c p) "///"));
    reflexivity.
Qed.

Lemma abspath_abs (cwd a : string) :
  isabs cwd = true -> isabs (abspath cwd a) = true.
Proof.
  intros Hcwd. unfold abspath. apply normpath_abs.
  destruct (isabs a) eqn:Ha; [done|].
  unfold join. rewrite Ha.
  destruct (String.eqb cwd "" || endswith_sep cwd); by apply isabs_append.
Qed.

End Absolute.

(** X7.  When the working directory is an absolute path, as the system
    reports it, then so are [html_file_path] and the place of the
    picture, whatever the names in the directory; the URL of the
    navigation therefore starts with [file:///], an empty authority
    and then the path. *)
Theorem url_of_absolute_directory (w : World) :
  posixpath.isabs (cwd w) = true ->
  posixpath.isabs (index_path w) = true
  /\ posixpath.isabs (output_path w) = true
  /\ exists rest, index_path w = "/" +:+ rest
                  /\ index_url w = "file:///" +:+ rest.
Proof.
  intros Hcwd.
  pose proof (abspath_abs (cwd w) "index.html" Hcwd) as Hindex.
  split; [exact Hindex|]. split; [by apply abspath_abs|].
  unfold index_url. fold (index_path w) in Hindex.
  destruct (index_path w) as [|c rest]; [discriminate|].
  unfold posixpath.isabs in Hindex. simpl in Hindex.
  rewrite andb_true_r in Hindex. apply Ascii.eqb_eq in Hindex as ->.
  by exists rest.
Qed.

Lemma url_of_absolute_directory_witness :
  posixpath.isabs (cwd fragment_world) = true
  /\ exists rest, index_path fragment_world = "/" +:+ rest
                  /\ index_url fragment_world = "file:///" +:+ rest.
Proof.
  assert (Hcwd : posixpath.isabs (cwd fragment_world) = true) by reflexivity.
  split; [exact Hcwd|].
  exact (proj2 (proj2 (url_of_absolute_directory fragment_world Hcwd))).
Defined.

Lemma old_output_is_irrelevant_witness :
  let old := Some (Png {| img_width := 1; img_height := 1; img_data := "old" |}) in
  status sound_engine repo_world = 0
  /\ fs (final sound_engine (with_output old repo_world))
     = fs (final sound_engine repo_world).
Proof.
  intros old.
  assert (Hexit : status sound_engine repo_world = 0) by (by vm_compute).
  split; [exact Hexit|].
  exact (proj2 (proj2 (proj2
           (old_output_is_irrelevant sound_engine repo_world old))) Hexit).
Defined.

(** ** The navigation and the file *)

(** X8.  In a working directory whose path the URL carries unchanged, the
    URL the script builds leads back to [html_file_path]; so, once the
    page is open and unless the host refuses the navigation, the
    navigation returns exactly when [index.html] exists. *)
Theorem navigation_follows_index (E : Engine) (w : World) :
  url.plain (index_path w) = true ->
  In (CNewPage, None) (log (final E w)) ->
  goto_fault E = None ->
  url.file_of_url (index_url w) = Some (index_path w)
  /\ (In (CGoto (index_url w), None) (log (final E w))
      <-> is_Some (fs w !! index_path w)).
Proof.
  intros Hplain Hpage Hgoto.
  split; [by apply file_of_url_plain|].
  rewrite <- (target_plain w Hplain).
  revert Hpage. on_paths E w; intros Hpage.
  all: try (repeat (destruct Hpage as [Hpage|Hpage]; [discriminate|]); done).
  all: try congruence.
  all: match goal with
       | Hf : fs _ !! target _ = _ |- _ => rewrite Hf
       end.
  all: split;
    [|intros [c' Hc']; first [discriminate | unfold returned; auto 10]].
  all: try (intros _; by eexists).
  intros Hin.
  repeat (destruct Hin as [Hin|Hin]; [discriminate|]). done.
Qed.

Lemma navigation_follows_index_witness :
  (url.plain (index_path empty_world) = true
   /\ In (CNewPage, None) (log (final sound_engine empty_world))
   /\ goto_fault sound_engine = None)
  /\ (In (CGoto (index_url empty_world), None)
        (log (final sound_engine empty_world))
      <-> is_Some (fs empty_world !! index_path empty_world)).
Proof.
  assert (H1 : url.plain (index_path empty_world) = true) by (by vm_compute).
  assert (H2 : In (CNewPage, None) (log (final sound_engine empty_world)))
    by (vm_compute; auto 10).
  assert (H3 : goto_fault sound_engine = None) by reflexivity.
  split; [by repeat split|].
  exact (proj2 (navigation_follows_index sound_engine empty_world H1 H2 H3)).
Defined.
